(** * smithy-go [middleware]: handler composition and the Build step

    A shallow embedding of [middleware/middleware.go] and
    [middleware/step_build.go], followed by the properties of the
    composition core and of the Build step's registry.

    Conventions of the embedding

    - A Go function of result type [(T, error)] that may touch the outside
      world is a computation in the monad [M]: it reads and writes a world
      state [W], and it either returns both of its results or panics.
    - [interface{}] is [any]: [None] is Go's [nil], [Some v] a dynamic
      value.  [error] is [option E] in the same way.
    - An interface value is the record of its methods; a one-method
      interface ([Handler], [BuildHandler]) is that method.  Converting a
      struct to an interface applies the struct's method to it.
    - A nil [Handler] or middleware is a value whose method panics when it
      is called.
    - [*BuildStep] is a pointer to mutable state: every method takes the
      current [BuildStep] and returns the next one.  A [BuildStep] is one
      that [NewBuildStep] made; the zero [BuildStep], whose [ids] is nil,
      is left out. *)

From Stdlib Require Import List String Arith Permutation
  FunctionalExtensionality.
Import ListNotations.
Local Open Scope string_scope.
Local Open Scope list_scope.

Set Implicit Arguments.

(* ===================================================================== *)
(** * Part I: the model *)
(* ===================================================================== *)

(** ** Results of Go calls *)

(** What a call that may panic comes to. *)
Inductive Outcome (A : Type) : Type :=
| Returns (a : A)
| Panics.
Arguments Panics {A}.

Section Model.

Variables Ctx V E W : Type.

(** [interface{}] and [error]; [None] is [nil]. *)
Definition any : Type := option V.
Definition error : Type := option E.

(** Computations over the world [W]; [None] is a panic. *)
Definition M (A : Type) : Type := W -> option (A * W).

Definition ret {A : Type} (a : A) : M A := fun w => Some (a, w).

Definition bind {A B : Type} (c : M A) (k : A -> M B) : M B :=
  fun w => match c w with
           | Some (a, w') => k a w'
           | None => None
           end.

Definition panic {A : Type} : M A := fun _ => None.

(** The error a call returned: [None] when it panicked, [Some None] for a
    nil error. *)
Definition returned_error {A : Type} (r : option ((A * error) * W))
  : option error :=
  match r with
  | Some ((_, err), _) => Some err
  | None => None
  end.

(* --------------------------------------------------------------------- *)
(** ** middleware.go *)

(** [Handler]: the interface with the single method [Handle]. *)
Definition Handler : Type := Ctx -> any -> M (any * error).

(** [HandlerFunc] and its method [Handle]. *)
Definition HandlerFunc : Type := Ctx -> any -> M (any * error).

Definition HandlerFunc_Handle (fn : HandlerFunc) : Handler :=
  fun ctx input => fn ctx input.

(** [Middleware]: the methods [ID] and [HandleMiddleware]. *)
Record Middleware : Type := {
  Middleware_ID : string;
  Middleware_HandleMiddleware : Ctx -> any -> Handler -> M (any * error)
}.

(** [decoratedHandler] and its method [Handle]. *)
Record decoratedHandler : Type := {
  decoratedHandler_Next : Handler;
  decoratedHandler_With : Middleware
}.

Definition decoratedHandler_Handle (m : decoratedHandler) : Handler :=
  fun ctx input =>
    Middleware_HandleMiddleware (decoratedHandler_With m) ctx input
      (decoratedHandler_Next m).

(** The loop of [DecorateHandler]:
    [for i := len(with) - 1; i >= 0; i-- { h = decoratedHandler{h, with[i]} }].
    The counter [n] is [i + 1], so that [n = 0] is the exit [i < 0];
    [with[i]] out of range is a run-time panic, [None]. *)
Fixpoint DecorateHandler_loop (with_ : list Middleware) (n : nat) (h : Handler)
  : option Handler :=
  match n with
  | O => Some h
  | S i =>
      match nth_error with_ i with
      | Some m =>
          DecorateHandler_loop with_ i
            (decoratedHandler_Handle
               {| decoratedHandler_Next := h; decoratedHandler_With := m |})
      | None => None
      end
  end.

Definition DecorateHandler (h : Handler) (with_ : list Middleware)
  : option Handler :=
  DecorateHandler_loop with_ (List.length with_) h.

(** [Middlewares] and its method [HandleMiddleware]. *)
Definition Middlewares : Type := list Middleware.

Definition Middlewares_HandleMiddleware
  (ms : Middlewares) (ctx : Ctx) (input : any) (next : Handler)
  : M (any * error) :=
  match DecorateHandler next ms with
  | Some next' => next' ctx input
  | None => panic
  end.

(** The nesting the specification describes, by recursion from the front of
    the list: the first middleware is the outermost and is handed, as its
    [next], the nesting of the rest around [h].  [DecorateHandler] is
    compared with it below. *)
Fixpoint nest (h : Handler) (ms : list Middleware) : Handler :=
  match ms with
  | [] => h
  | m :: ms' =>
      fun ctx input => Middleware_HandleMiddleware m ctx input (nest h ms')
  end.

(** One pass of the loop body of [DecorateHandler], for the statements
    below: [decoratedHandler{Next: h, With: m}] as a [Handler]. *)
Definition wrap (h : Handler) (m : Middleware) : Handler :=
  decoratedHandler_Handle
    {| decoratedHandler_Next := h; decoratedHandler_With := m |}.

(** The behaviours of a middleware that the properties below talk about.
    [delegates m]: [m] hands its input on to [next] and returns what [next]
    returns.  [delegates_with m ctx x x']: called with [x], [m] hands [x']
    on instead.  [short_circuits m]: [m] returns without calling [next], so
    that what it does is the same whatever [next] is. *)
Definition delegates (m : Middleware) : Prop :=
  forall ctx input (next : Handler) w,
    Middleware_HandleMiddleware m ctx input next w = next ctx input w.

Definition delegates_with (m : Middleware) (ctx : Ctx) (x x' : any) : Prop :=
  forall (next : Handler) w,
    Middleware_HandleMiddleware m ctx x next w = next ctx x' w.

Definition short_circuits (m : Middleware) : Prop :=
  exists body : Ctx -> any -> M (any * error),
    forall ctx input (next : Handler) w,
      Middleware_HandleMiddleware m ctx input next w = body ctx input w.

(** A middleware that calls [next] exactly once, whatever else it does:
    what it runs before the call, which leaves it some [a : A] to go on
    with; the input it hands to [next]; and what it runs on what [next]
    returned, which gives what it returns itself. *)
Record Around (A : Type) : Type := {
  Around_before : Ctx -> any -> M A;
  Around_input : Ctx -> any -> A -> any;
  Around_after : Ctx -> any -> A -> any * error -> M (any * error)
}.

Definition goes_around (A : Type) (m : Middleware) (sh : Around A) : Prop :=
  forall ctx input (next : Handler) w,
    Middleware_HandleMiddleware m ctx input next w
    = bind (Around_before sh ctx input) (fun a =>
      bind (next ctx (Around_input sh ctx input a)) (fun r =>
      Around_after sh ctx input a r)) w.

(** [keeps_input]: the input handed to [next] is the one received.
    [hands_on sh ctx x x']: called with [x], it is [x'] that is handed to
    [next].  [keeps_errors]: when [next] returned an error, what is
    returned has that same error. *)
Definition keeps_input (A : Type) (sh : Around A) : Prop :=
  forall ctx input a, Around_input sh ctx input a = input.

Definition hands_on (A : Type) (sh : Around A) (ctx : Ctx) (x x' : any) : Prop :=
  forall a, Around_input sh ctx x a = x'.

Definition keeps_errors (A : Type) (sh : Around A) : Prop :=
  forall ctx input a out e w,
    exists out' w',
      Around_after sh ctx input a (out, Some e) w = Some ((out', Some e), w').

(** The way in through middleware of these shapes, outermost first: the
    input and the world with which the handler inside them is called, and
    what each middleware on the way keeps for the way out.  [None] when one
    of them panics before its call of [next]. *)
Fixpoint reach (A : Type) (shs : list (Around A)) (ctx : Ctx) (x : any) (w : W)
  : option (list (Around A * any * A) * any * W) :=
  match shs with
  | [] => Some ([], x, w)
  | sh :: shs' =>
      match Around_before sh ctx x w with
      | Some (a, w1) =>
          match reach shs' ctx (Around_input sh ctx x a) w1 with
          | Some (stack, xn, wn) => Some ((sh, x, a) :: stack, xn, wn)
          | None => None
          end
      | None => None
      end
  end.

(** The way out: what the handler inside returned goes through the
    middleware from the innermost to the outermost. *)
Fixpoint unwind (A : Type) (stack : list (Around A * any * A)) (ctx : Ctx)
  (r : any * error) (w : W) : option ((any * error) * W) :=
  match stack with
  | [] => Some (r, w)
  | (sh, x, a) :: stack' =>
      match unwind stack' ctx r w with
      | Some (r', w') => Around_after sh ctx x a r' w'
      | None => None
      end
  end.

(** What a call comes to when a pure function is applied to what it
    returned; a panic stays a panic. *)
Definition map_result {A B : Type} (g : A -> B) (r : option (A * W))
  : option (B * W) :=
  match r with
  | Some (a, w) => Some (g a, w)
  | None => None
  end.

(** [wraps_with m f g]: [m] calls [next] once, on its input changed by
    [f], and returns what [next] returned changed by [g]; it does nothing
    else. *)
Definition wraps_with
  (m : Middleware) (f : any -> any) (g : any * error -> any * error) : Prop :=
  forall ctx input (next : Handler) w,
    Middleware_HandleMiddleware m ctx input next w
    = map_result g (next ctx (f input) w).

(** The input after the changes [fs], applied first to last, and the
    result after the changes [gs], applied last to first. *)
Definition inputs_through (fs : list (any -> any)) (x : any) : any :=
  fold_left (fun a f => f a) fs x.

Definition results_back
  (gs : list (any * error -> any * error)) (r : any * error) : any * error :=
  fold_right (fun g a => g a) r gs.

(** [brackets m before after]: [m] runs [before] on its input, calls
    [next] once on that input, runs [after] on what [next] returned, and
    returns it. *)
Definition brackets
  (m : Middleware) (before : Ctx -> any -> M unit)
  (after : Ctx -> any * error -> M unit) : Prop :=
  forall ctx input (next : Handler) w,
    Middleware_HandleMiddleware m ctx input next w
    = bind (before ctx input) (fun _ =>
      bind (next ctx input) (fun r =>
      bind (after ctx r) (fun _ => ret r))) w.

(** The [before]s one after the other, first to last, and the [after]s,
    last to first. *)
Fixpoint run_before (bs : list (Ctx -> any -> M unit)) (ctx : Ctx) (x : any)
  : M unit :=
  match bs with
  | [] => ret tt
  | b :: bs' => bind (b ctx x) (fun _ => run_before bs' ctx x)
  end.

Fixpoint run_after (afters : list (Ctx -> any * error -> M unit))
  (ctx : Ctx) (r : any * error) : M unit :=
  match afters with
  | [] => ret tt
  | a :: afters' => bind (run_after afters' ctx r) (fun _ => a ctx r)
  end.

(* --------------------------------------------------------------------- *)
(** ** step_build.go: inputs, outputs, handlers and middleware *)

Record BuildInput : Type := { BuildInput_Request : any }.

Record BuildOutput : Type := { BuildOutput_Result : any }.

(** [BuildHandler]: the interface with the single method [HandleBuild]. *)
Definition BuildHandler : Type := Ctx -> BuildInput -> M (BuildOutput * error).

(** [BuildMiddleware]: the methods [ID] and [HandleBuild]. *)
Record BuildMiddleware : Type := {
  BuildMiddleware_ID : string;
  BuildMiddleware_HandleBuild :
    Ctx -> BuildInput -> BuildHandler -> M (BuildOutput * error)
}.

(** [buildMiddlewareFunc] with its methods, and [BuildMiddlewareFunc]. *)
Record buildMiddlewareFunc : Type := {
  buildMiddlewareFunc_id : string;
  buildMiddlewareFunc_fn :
    Ctx -> BuildInput -> BuildHandler -> M (BuildOutput * error)
}.

Definition buildMiddlewareFunc_ID (s : buildMiddlewareFunc) : string :=
  buildMiddlewareFunc_id s.

Definition buildMiddlewareFunc_HandleBuild
  (s : buildMiddlewareFunc) (ctx : Ctx) (in_ : BuildInput) (next : BuildHandler)
  : M (BuildOutput * error) :=
  buildMiddlewareFunc_fn s ctx in_ next.

Definition BuildMiddlewareFunc
  (id : string)
  (fn : Ctx -> BuildInput -> BuildHandler -> M (BuildOutput * error))
  : BuildMiddleware :=
  let s := {| buildMiddlewareFunc_id := id; buildMiddlewareFunc_fn := fn |} in
  {| BuildMiddleware_ID := buildMiddlewareFunc_ID s;
     BuildMiddleware_HandleBuild := buildMiddlewareFunc_HandleBuild s |}.

(** [buildWrapHandler] and its method [HandleBuild]. *)
Record buildWrapHandler : Type := { buildWrapHandler_Next : Handler }.

Definition buildWrapHandler_HandleBuild (w : buildWrapHandler) : BuildHandler :=
  fun ctx in_ =>
    bind (buildWrapHandler_Next w ctx (BuildInput_Request in_))
      (fun '(res, err) =>
         match err with
         | Some _ => ret ({| BuildOutput_Result := None |}, err)
         | None => ret ({| BuildOutput_Result := res |}, None)
         end).

(** [decoratedBuildHandler] and its method [HandleBuild]. *)
Record decoratedBuildHandler : Type := {
  decoratedBuildHandler_Next : BuildHandler;
  decoratedBuildHandler_With : BuildMiddleware
}.

Definition decoratedBuildHandler_HandleBuild (h : decoratedBuildHandler)
  : BuildHandler :=
  fun ctx in_ =>
    BuildMiddleware_HandleBuild (decoratedBuildHandler_With h) ctx in_
      (decoratedBuildHandler_Next h).

(** The two conversions at the boundary of the step, as
    [buildWrapHandler.HandleBuild] and [BuildStep.HandleMiddleware] have
    them after their calls: an error empties the output. *)
Definition to_BuildOutput (r : any * error) : BuildOutput * error :=
  let '(res, err) := r in
  match err with
  | Some _ => ({| BuildOutput_Result := None |}, err)
  | None => ({| BuildOutput_Result := res |}, None)
  end.

Definition of_BuildOutput (r : BuildOutput * error) : any * error :=
  let '(res, err) := r in
  match err with
  | Some _ => (None, err)
  | None => (BuildOutput_Result res, None)
  end.

(** [build_wraps_with m f g]: [m] calls [next] once, on its input with the
    request changed by [f], and returns what [next] returned changed by
    [g].  [build_short_circuits m]: [m] returns without calling [next]. *)
Definition build_wraps_with
  (m : BuildMiddleware) (f : any -> any)
  (g : BuildOutput * error -> BuildOutput * error) : Prop :=
  forall ctx in_ (next : BuildHandler) w,
    BuildMiddleware_HandleBuild m ctx in_ next w
    = map_result g
        (next ctx {| BuildInput_Request := f (BuildInput_Request in_) |} w).

Definition build_short_circuits (m : BuildMiddleware) : Prop :=
  exists body : Ctx -> BuildInput -> M (BuildOutput * error),
    forall ctx in_ (next : BuildHandler) w,
      BuildMiddleware_HandleBuild m ctx in_ next w = body ctx in_ w.

Definition build_results_back
  (gs : list (BuildOutput * error -> BuildOutput * error))
  (r : BuildOutput * error) : BuildOutput * error :=
  fold_right (fun g a => g a) r gs.

End Model.

Arguments ret {W A} a _.
Arguments bind {W A B} c k _.
Arguments panic {W A} _.
Arguments returned_error {E W A} r.
Arguments wrap {Ctx V E W} h m.
Arguments delegates {Ctx V E W} m.
Arguments short_circuits {Ctx V E W} m.
Arguments map_result {W A B} g r.
Arguments goes_around {Ctx V E W A} m sh.
Arguments keeps_input {Ctx V E W A} sh.
Arguments keeps_errors {Ctx V E W A} sh.
Arguments brackets {Ctx V E W} m before after.
Arguments wraps_with {Ctx V E W} m f g.
Arguments build_wraps_with {Ctx V E W} m f g.
Arguments build_short_circuits {Ctx V E W} m.
Arguments to_BuildOutput {V E} r.
Arguments of_BuildOutput {V E} r.

(* --------------------------------------------------------------------- *)
(** ** The ordered registry behind a step *)

Section Registry.

Variables Ctx V E W : Type.

Local Abbreviation Handler := (Handler Ctx V E W).
Local Abbreviation BuildHandler := (BuildHandler Ctx V E W).
Local Abbreviation BuildMiddleware := (BuildMiddleware Ctx V E W).

(** Modelled from the spec: the entry type of the registry, whose Go
    declaration is not part of the sources at hand.  An entry is "an opaque
    value (a middleware instance) associated with a unique string
    identifier"; [step_build.go] narrows the entries it reads back with
    [.(BuildMiddleware)], so an entry's dynamic type either implements
    [BuildMiddleware] or is something else that only has an identifier. *)
Inductive Entry : Type :=
| Entry_BuildMiddleware (m : BuildMiddleware)
| Entry_other (id : string).

Definition Entry_ID (e : Entry) : string :=
  match e with
  | Entry_BuildMiddleware m => BuildMiddleware_ID m
  | Entry_other id => id
  end.

(** The type assertion [e.(BuildMiddleware)]; [Panics] is the failed
    interface conversion. *)
Definition assert_BuildMiddleware (e : Entry) : Outcome BuildMiddleware :=
  match e with
  | Entry_BuildMiddleware m => Returns m
  | Entry_other _ => Panics
  end.

(** Modelled from the spec: [RelativePosition], "an enumerated value,
    [Before] or [After]"; its declaration is not part of the sources at
    hand. *)
Inductive RelativePosition : Type := After | Before.

(** Modelled from the spec: the error kinds of a registry mutation
    (sections 4.1 and 7); each carries the offending identifier. *)
Inductive RegistryError : Type :=
| DuplicateID (id : string)
| AnchorNotFound (id : string)
| NotFound (id : string).

(** Modelled from the spec: [orderedIDs], "an ordered sequence of Entries";
    the Go type and its methods are not part of the sources at hand. *)
Record orderedIDs : Type := { orderedIDs_entries : list Entry }.

Definition newOrderedIDs : orderedIDs := {| orderedIDs_entries := [] |}.

Definition has_id (id : string) (l : list Entry) : bool :=
  existsb (fun e => String.eqb (Entry_ID e) id) l.

(** The entry of identifier [id], with what precedes and what follows it. *)
Fixpoint locate (id : string) (l : list Entry)
  : option (list Entry * Entry * list Entry) :=
  match l with
  | [] => None
  | e :: l' =>
      if String.eqb (Entry_ID e) id then Some ([], e, l')
      else match locate id l' with
           | Some (pre, a, post) => Some (e :: pre, a, post)
           | None => None
           end
  end.

(** Modelled from the spec: "[Add(entry, position)]: appends entry at the
    front ([Before]) or the back ([After]) of the sequence.  Fails with
    [DuplicateID] if an entry with the same identifier already exists." *)
Definition orderedIDs_Add (e : Entry) (pos : RelativePosition) (g : orderedIDs)
  : orderedIDs * option RegistryError :=
  let l := orderedIDs_entries g in
  if has_id (Entry_ID e) l then (g, Some (DuplicateID (Entry_ID e)))
  else match pos with
       | Before => ({| orderedIDs_entries := e :: l |}, None)
       | After => ({| orderedIDs_entries := l ++ [e] |}, None)
       end.

(** Modelled from the spec: "[Insert(entry, anchorID, position)]: inserts
    entry immediately before or immediately after the entry whose
    identifier equals [anchorID].  Fails with [AnchorNotFound] if no entry
    has [anchorID]; fails with [DuplicateID] if [entry]'s identifier already
    exists (checked before the anchor lookup or after)."  The duplicate is
    checked first here. *)
Definition orderedIDs_Insert
  (e : Entry) (relativeTo : string) (pos : RelativePosition) (g : orderedIDs)
  : orderedIDs * option RegistryError :=
  let l := orderedIDs_entries g in
  if has_id (Entry_ID e) l then (g, Some (DuplicateID (Entry_ID e)))
  else match locate relativeTo l with
       | None => (g, Some (AnchorNotFound relativeTo))
       | Some (pre, a, post) =>
           match pos with
           | Before => ({| orderedIDs_entries := pre ++ e :: a :: post |}, None)
           | After => ({| orderedIDs_entries := pre ++ a :: e :: post |}, None)
           end
       end.

(** Modelled from the spec: "[Swap(id, newEntry)]: locates the entry with
    identifier [id], replaces it in place with [newEntry], and returns the
    removed entry.  Fails with [NotFound] if [id] is absent.  [newEntry]'s
    identifier need not equal [id], but after the swap its identifier must
    still be unique among the remaining entries: fails with [DuplicateID]
    if not."  The removed entry is [nil] on failure. *)
Definition orderedIDs_Swap (id : string) (e : Entry) (g : orderedIDs)
  : orderedIDs * (option Entry * option RegistryError) :=
  match locate id (orderedIDs_entries g) with
  | None => (g, (None, Some (NotFound id)))
  | Some (pre, a, post) =>
      if has_id (Entry_ID e) (pre ++ post)
      then (g, (None, Some (DuplicateID (Entry_ID e))))
      else ({| orderedIDs_entries := pre ++ e :: post |}, (Some a, None))
  end.

(** Modelled from the spec: "[Remove(id)]: deletes the entry with
    identifier [id]; order is preserved, just shorter.  Fails with
    [NotFound] if absent." *)
Definition orderedIDs_Remove (id : string) (g : orderedIDs)
  : orderedIDs * option RegistryError :=
  match locate id (orderedIDs_entries g) with
  | None => (g, Some (NotFound id))
  | Some (pre, _, post) => ({| orderedIDs_entries := pre ++ post |}, None)
  end.

(** Modelled from the spec: "[Clear()]: removes all entries; never
    fails." *)
Definition orderedIDs_Clear (g : orderedIDs) : orderedIDs :=
  {| orderedIDs_entries := [] |}.

(** Modelled from the spec: "[GetOrder()]: returns the current sequence as
    an ordered, read-only snapshot".  A list is a value, so the snapshot is
    the sequence itself. *)
Definition orderedIDs_GetOrder (g : orderedIDs) : list Entry :=
  orderedIDs_entries g.

(* --------------------------------------------------------------------- *)
(** ** step_build.go: [BuildStep] *)

Record BuildStep : Type := { BuildStep_ids : orderedIDs }.

Definition NewBuildStep : BuildStep := {| BuildStep_ids := newOrderedIDs |}.

Definition BuildStep_ID (s : BuildStep) : string := "Build stack step".

(** The loop of [BuildStep.HandleMiddleware], counted as in
    [DecorateHandler_loop]; besides [order[i]] out of range, the assertion
    [order[i].(BuildMiddleware)] may panic. *)
Fixpoint BuildStep_HandleMiddleware_loop
  (order : list Entry) (n : nat) (h : BuildHandler) : option BuildHandler :=
  match n with
  | O => Some h
  | S i =>
      match nth_error order i with
      | Some e =>
          match assert_BuildMiddleware e with
          | Returns m =>
              BuildStep_HandleMiddleware_loop order i
                (decoratedBuildHandler_HandleBuild
                   {| decoratedBuildHandler_Next := h;
                      decoratedBuildHandler_With := m |})
          | Panics => None
          end
      | None => None
      end
  end.

Definition BuildStep_HandleMiddleware
  (s : BuildStep) (ctx : Ctx) (in_ : any V) (next : Handler)
  : M W (any V * error E) :=
  let order := orderedIDs_GetOrder (BuildStep_ids s) in
  match
    BuildStep_HandleMiddleware_loop order (List.length order)
      (buildWrapHandler_HandleBuild {| buildWrapHandler_Next := next |})
  with
  | None => panic
  | Some h =>
      let sIn := {| BuildInput_Request := in_ |} in
      bind (h ctx sIn)
        (fun '(res, err) =>
           match err with
           | Some _ => ret (None, err)
           | None => ret (BuildOutput_Result res, None)
           end)
  end.

Definition BuildStep_Add (m : BuildMiddleware) (pos : RelativePosition)
  (s : BuildStep) : BuildStep * option RegistryError :=
  let (g, err) := orderedIDs_Add (Entry_BuildMiddleware m) pos (BuildStep_ids s) in
  ({| BuildStep_ids := g |}, err).

Definition BuildStep_Insert
  (m : BuildMiddleware) (relativeTo : string) (pos : RelativePosition)
  (s : BuildStep) : BuildStep * option RegistryError :=
  let (g, err) :=
    orderedIDs_Insert (Entry_BuildMiddleware m) relativeTo pos (BuildStep_ids s) in
  ({| BuildStep_ids := g |}, err).

(** [Swap] returns [(nil, err)] on an error, and otherwise asserts the
    removed entry to be a [BuildMiddleware]; the assertion panics on a
    [nil] entry as on one of another type. *)
Definition BuildStep_Swap (id : string) (m : BuildMiddleware) (s : BuildStep)
  : BuildStep * Outcome (option BuildMiddleware * option RegistryError) :=
  let '(g, (removed, err)) :=
    orderedIDs_Swap id (Entry_BuildMiddleware m) (BuildStep_ids s) in
  let s' := {| BuildStep_ids := g |} in
  match err with
  | Some _ => (s', Returns (None, err))
  | None =>
      match removed with
      | Some r =>
          match assert_BuildMiddleware r with
          | Returns b => (s', Returns (Some b, None))
          | Panics => (s', Panics)
          end
      | None => (s', Panics)
      end
  end.

(** [BuildStep.Swap] around any registry: [swap] stands for the call
    [s.ids.Swap(id, m)], the rest is the method as above. *)
Definition BuildStep_Swap_with
  (swap : string -> Entry -> orderedIDs
          -> orderedIDs * (option Entry * option RegistryError))
  (id : string) (m : BuildMiddleware) (s : BuildStep)
  : BuildStep * Outcome (option BuildMiddleware * option RegistryError) :=
  let '(g, (removed, err)) :=
    swap id (Entry_BuildMiddleware m) (BuildStep_ids s) in
  let s' := {| BuildStep_ids := g |} in
  match err with
  | Some _ => (s', Returns (None, err))
  | None =>
      match removed with
      | Some r =>
          match assert_BuildMiddleware r with
          | Returns b => (s', Returns (Some b, None))
          | Panics => (s', Panics)
          end
      | None => (s', Panics)
      end
  end.

Definition BuildStep_Remove (id : string) (s : BuildStep)
  : BuildStep * option RegistryError :=
  let (g, err) := orderedIDs_Remove id (BuildStep_ids s) in
  ({| BuildStep_ids := g |}, err).

Definition BuildStep_Clear (s : BuildStep) : BuildStep :=
  {| BuildStep_ids := orderedIDs_Clear (BuildStep_ids s) |}.

(** The entries of a step, in order, and their identifiers. *)
Definition BuildStep_order (s : BuildStep) : list Entry :=
  orderedIDs_GetOrder (BuildStep_ids s).

Definition identifiers (l : list Entry) : list string := map Entry_ID l.

Definition BuildStep_identifiers (s : BuildStep) : list string :=
  identifiers (BuildStep_order s).

(** Two properties of a sequence of entries: its identifiers are pairwise
    distinct; each of its entries is a [BuildMiddleware]. *)
Definition distinct (l : list Entry) : Prop := NoDup (identifiers l).

Definition all_BuildMiddleware (l : list Entry) : Prop :=
  Forall (fun e => exists m, e = Entry_BuildMiddleware m) l.

(** A call of one of the mutating methods of [BuildStep], and what the call
    does: the next state with the error it returns, or a panic. *)
Inductive Mutation : Type :=
| Call_Add (m : BuildMiddleware) (pos : RelativePosition)
| Call_Insert (m : BuildMiddleware) (relativeTo : string) (pos : RelativePosition)
| Call_Swap (id : string) (m : BuildMiddleware)
| Call_Remove (id : string)
| Call_Clear.

Definition call (c : Mutation) (s : BuildStep)
  : BuildStep * Outcome (option RegistryError) :=
  match c with
  | Call_Add m pos =>
      let (s', err) := BuildStep_Add m pos s in (s', Returns err)
  | Call_Insert m relativeTo pos =>
      let (s', err) := BuildStep_Insert m relativeTo pos s in (s', Returns err)
  | Call_Swap id m =>
      match BuildStep_Swap id m s with
      | (s', Returns (_, err)) => (s', Returns err)
      | (s', Panics) => (s', Panics)
      end
  | Call_Remove id =>
      let (s', err) := BuildStep_Remove id s in (s', Returns err)
  | Call_Clear => (BuildStep_Clear s, Returns None)
  end.

(** The middleware a call hands to the step: the [BuildMiddleware]
    parameter of [Add], [Insert] and [Swap]. *)
Definition given (c : Mutation) : list BuildMiddleware :=
  match c with
  | Call_Add m _ => [m]
  | Call_Insert m _ _ => [m]
  | Call_Swap _ m => [m]
  | Call_Remove _ => []
  | Call_Clear => []
  end.

(** The step after a sequence of calls, whatever each of them returned. *)
Definition calls (cs : list Mutation) (s : BuildStep) : BuildStep :=
  fold_left (fun s c => fst (call c s)) cs s.

(** The nesting the specification describes for a stage: the first
    middleware of the list is the outermost. *)
Fixpoint nestBuild (h : BuildHandler) (ms : list BuildMiddleware) : BuildHandler :=
  match ms with
  | [] => h
  | m :: ms' =>
      fun ctx in_ => BuildMiddleware_HandleBuild m ctx in_ (nestBuild h ms')
  end.

End Registry.

Arguments Entry_other {Ctx V E W} id.
Arguments newOrderedIDs {Ctx V E W}.
Arguments NewBuildStep {Ctx V E W}.
Arguments Call_Remove {Ctx V E W} id.
Arguments Call_Clear {Ctx V E W}.

(* --------------------------------------------------------------------- *)
(** ** Concrete handlers and middleware

    The world is the log of what ran, values and errors are strings, the
    context carries nothing. *)

Module Sample.

Definition World : Type := list string.

Abbreviation SHandler := (Handler unit string string World).
Abbreviation SMiddleware := (Middleware unit string string World).
Abbreviation SBuildHandler := (BuildHandler unit string string World).
Abbreviation SBuildMiddleware := (BuildMiddleware unit string string World).
Abbreviation SBuildStep := (BuildStep unit string string World).
Abbreviation SResult := (any string * error string)%type.

Definition say (line : string) : M World unit :=
  fun w => Some (tt, w ++ [line]).

Definition show (x : any string) : string :=
  match x with
  | Some v => v
  | None => "nil"
  end.

(** A terminal handler that records its input and answers with it. *)
Definition terminal : SHandler :=
  fun _ input => bind (say ("T " ++ show input)) (fun _ => ret (input, None)).

(** A terminal handler that records its input and fails. *)
Definition failing : SHandler :=
  fun _ input =>
    bind (say ("T " ++ show input)) (fun _ => ret (None, Some "boom")).

(** A terminal handler that panics. *)
Definition panicking : SHandler := fun _ _ => panic.

(** Delegates to [next] with the input it was given, and nothing else. *)
Definition pass (id : string) : SMiddleware :=
  {| Middleware_ID := id;
     Middleware_HandleMiddleware := fun ctx input next => next ctx input |}.

(** Records its input, delegates, records the return. *)
Definition traced (id : string) : SMiddleware :=
  {| Middleware_ID := id;
     Middleware_HandleMiddleware := fun ctx input next =>
       bind (say (id ++ " " ++ show input)) (fun _ =>
       bind (next ctx input) (fun r =>
       bind (say (id ++ " done")) (fun _ => ret r))) |}.

(** Delegates with the input replaced by [x']. *)
Definition replacing (id : string) (x' : string) : SMiddleware :=
  {| Middleware_ID := id;
     Middleware_HandleMiddleware := fun ctx _ next => next ctx (Some x') |}.

(** Returns [r] without calling [next]. *)
Definition answering (id : string) (r : SResult) : SMiddleware :=
  {| Middleware_ID := id;
     Middleware_HandleMiddleware := fun _ input _ =>
       bind (say (id ++ " " ++ show input)) (fun _ => ret r) |}.

(** Calls [next] and drops the error it returns. *)
Definition swallowing (id : string) : SMiddleware :=
  {| Middleware_ID := id;
     Middleware_HandleMiddleware := fun ctx input next =>
       bind (next ctx input) (fun '(out, _) => ret (out, None)) |}.

(** Calls [next], and once more when it returned an error. *)
Definition retrying (id : string) : SMiddleware :=
  {| Middleware_ID := id;
     Middleware_HandleMiddleware := fun ctx input next =>
       bind (next ctx input) (fun '(out, err) =>
         match err with
         | Some _ => next ctx input
         | None => ret (out, None)
         end) |}.

(** A build middleware that records the request, delegates and records the
    return, through the function adapter. *)
Definition build_traced (id : string) : SBuildMiddleware :=
  BuildMiddlewareFunc id (fun ctx in_ next =>
    bind (say (id ++ " " ++ show (BuildInput_Request in_))) (fun _ =>
    bind (next ctx in_) (fun r =>
    bind (say (id ++ " done")) (fun _ => ret r)))).

(** A build middleware that fails without delegating. *)
Definition build_failing (id : string) : SBuildMiddleware :=
  BuildMiddlewareFunc id (fun _ _ _ =>
    ret ({| BuildOutput_Result := Some "partial" |}, Some "rejected")).

(** Records its input, delegates with the input replaced by [x'], records
    the return. *)
Definition traced_replacing (id : string) (x' : string) : SMiddleware :=
  {| Middleware_ID := id;
     Middleware_HandleMiddleware := fun ctx input next =>
       bind (say (id ++ " " ++ show input)) (fun _ =>
       bind (next ctx (Some x')) (fun r =>
       bind (say (id ++ " done")) (fun _ => ret r))) |}.

(** The shapes of [traced id] and of [traced_replacing id x']. *)
Definition around_traced (id : string)
  : Around unit string string World unit :=
  {| Around_before := fun _ input => say (id ++ " " ++ show input);
     Around_input := fun _ input _ => input;
     Around_after := fun _ _ _ r =>
       bind (say (id ++ " done")) (fun _ => ret r) |}.

Definition around_traced_replacing (id : string) (x' : string)
  : Around unit string string World unit :=
  {| Around_before := fun _ input => say (id ++ " " ++ show input);
     Around_input := fun _ _ _ => Some x';
     Around_after := fun _ _ _ r =>
       bind (say (id ++ " done")) (fun _ => ret r) |}.

(** Marks its input with [id] on the way in and a returned output with
    [id] on the way out. *)
Definition mark (t : string) (x : any string) : any string :=
  Some (show x ++ t)%string.

Definition mark_output (t : string) (r : SResult) : SResult :=
  (mark t (fst r), snd r).

Definition marking (id : string) : SMiddleware :=
  {| Middleware_ID := id;
     Middleware_HandleMiddleware := fun ctx input next w =>
       map_result (mark_output ("<" ++ id)) (next ctx (mark (">" ++ id) input) w) |}.

Definition mark_build_output (t : string)
  (r : BuildOutput string * error string) : BuildOutput string * error string :=
  ({| BuildOutput_Result := mark t (BuildOutput_Result (fst r)) |}, snd r).

Definition build_marking (id : string) : SBuildMiddleware :=
  BuildMiddlewareFunc id (fun ctx in_ next w =>
    map_result (mark_build_output ("<" ++ id))
      (next ctx
         {| BuildInput_Request := mark (">" ++ id) (BuildInput_Request in_) |}
         w)).

(** A step holding [a] then [b]. *)
Definition step_ab : SBuildStep :=
  calls [Call_Add (build_traced "a") After; Call_Add (build_traced "b") After]
    NewBuildStep.

End Sample.

(* ===================================================================== *)
(** * Part II: properties *)
(* ===================================================================== *)

(** ** Runs of the sample chains *)

Example traced_chain_runs_in_list_order :
  match DecorateHandler Sample.terminal [Sample.traced "A"; Sample.traced "B"] with
  | Some h => h tt (Some "x") []
  | None => None
  end
  = Some ((Some "x", None), ["A x"; "B x"; "T x"; "B done"; "A done"]).
Proof. reflexivity. Qed.

Example answering_chain_skips_terminal :
  match
    DecorateHandler Sample.terminal
      [Sample.traced "A"; Sample.answering "B" (Some "y", None)]
  with
  | Some h => h tt (Some "x") []
  | None => None
  end
  = Some ((Some "y", None), ["A x"; "B x"; "A done"]).
Proof. reflexivity. Qed.

Example failing_step_run :
  BuildStep_HandleMiddleware
    (calls [Call_Add (Sample.build_traced "a") After;
            Call_Add (Sample.build_failing "f") After;
            Call_Add (Sample.build_traced "b") After] NewBuildStep)
    tt (Some "x") Sample.terminal []
  = Some ((None, Some "rejected"), ["a x"; "a done"]).
Proof. reflexivity. Qed.

Example step_ab_run :
  BuildStep_HandleMiddleware Sample.step_ab tt (Some "x") Sample.terminal []
  = Some ((Some "x", None), ["a x"; "b x"; "T x"; "b done"; "a done"]).
Proof. reflexivity. Qed.

(* --------------------------------------------------------------------- *)
(** ** Composition: [DecorateHandler] and [Middlewares] *)

Section Composition.

Variables Ctx V E W : Type.

Local Abbreviation Handler := (Handler Ctx V E W).
Local Abbreviation Middleware := (Middleware Ctx V E W).

Lemma nth_error_after (A : Type) (l l' : list A) (a : A) :
  nth_error (l ++ a :: l') (List.length l) = Some a.
Proof. induction l as [|b l IH]; simpl; [reflexivity | exact IH]. Qed.

Lemma nest_app (h : Handler) (l1 l2 : list Middleware) :
  nest h (l1 ++ l2) = nest (nest h l2) l1.
Proof.
  induction l1 as [|m l1 IH]; simpl.
  - reflexivity.
  - rewrite IH. reflexivity.
Qed.

(** After the passes for the indices below [length done], the handler is
    the nesting of [done] around the handler the passes started from. *)
Lemma DecorateHandler_loop_prefix (done rest : list Middleware) :
  forall h : Handler,
    DecorateHandler_loop (done ++ rest) (List.length done) h
    = Some (nest h done).
Proof.
  revert rest.
  induction done as [|m done IH] using rev_ind; intros rest h.
  - reflexivity.
  - rewrite length_app, Nat.add_comm. simpl.
    rewrite <- app_assoc. simpl.
    rewrite nth_error_after, IH, nest_app.
    reflexivity.
Qed.

Lemma DecorateHandler_nest (h : Handler) (ms : list Middleware) :
  DecorateHandler h ms = Some (nest h ms).
Proof.
  unfold DecorateHandler.
  rewrite <- (app_nil_r ms) at 1.
  apply DecorateHandler_loop_prefix.
Qed.

Lemma nest_fold_left (ms : list Middleware) :
  forall h : Handler, nest h ms = fold_left wrap (rev ms) h.
Proof.
  induction ms as [|m ms IH] using rev_ind; intro h.
  - reflexivity.
  - rewrite rev_unit, nest_app. simpl. apply IH.
Qed.

Lemma nest_delegating (h : Handler) (ms : list Middleware) :
  Forall delegates ms ->
  forall ctx input w, nest h ms ctx input w = h ctx input w.
Proof.
  induction 1 as [|m ms Hm _ IH]; intros ctx input w; simpl.
  - reflexivity.
  - rewrite Hm. apply IH.
Qed.

(** C1. For every terminal handler [h] and every list of middleware,
    [DecorateHandler] returns (without panicking) the handler obtained by
    going through the list from its last element to its first and wrapping
    at each step; that handler is the nesting in list order: whenever the
    list is [pre ++ mi :: post], the composed handler is [pre] nested
    around the call of [mi], and [mi] is handed as its [next] the nesting
    of [post] around [h], which is what [DecorateHandler] returns for
    [post].  With [pre] empty: invoking the composed handler is the call of
    the first middleware. *)
Theorem DecorateHandler_list_order
  (h : Handler) (ms pre post : list Middleware) (mi : Middleware) :
  DecorateHandler h ms = Some (fold_left wrap (rev ms) h)
  /\ DecorateHandler h ms = Some (nest h ms)
  /\ DecorateHandler h (pre ++ mi :: post)
     = Some (nest (fun ctx input =>
                     Middleware_HandleMiddleware mi ctx input (nest h post))
                  pre)
  /\ DecorateHandler h (mi :: post)
     = Some (fun ctx input =>
               Middleware_HandleMiddleware mi ctx input (nest h post))
  /\ DecorateHandler h post = Some (nest h post).
Proof.
  repeat split.
  - rewrite DecorateHandler_nest, nest_fold_left. reflexivity.
  - apply DecorateHandler_nest.
  - rewrite DecorateHandler_nest, nest_app. reflexivity.
  - apply DecorateHandler_nest.
  - apply DecorateHandler_nest.
Qed.

(** C10. Invoking a [Middlewares] collection as one middleware is
    decorating [next] with its elements and invoking the result:
    [DecorateHandler next ms] returns a handler, and
    [ms.HandleMiddleware(ctx, input, next)] is that handler's
    [Handle(ctx, input)], with the same output, error and effects. *)
Theorem Middlewares_HandleMiddleware_decorates
  (ms : Middlewares Ctx V E W) (ctx : Ctx) (input : any V) (next : Handler) :
  exists h : Handler,
    DecorateHandler next ms = Some h
    /\ Middlewares_HandleMiddleware ms ctx input next = h ctx input.
Proof.
  exists (nest next ms).
  unfold Middlewares_HandleMiddleware.
  rewrite DecorateHandler_nest.
  split; reflexivity.
Qed.

Lemma nest_around (A : Type) (g : Handler) (ms : list Middleware)
  (shs : list (Around Ctx V E W A)) :
  Forall2 (fun m sh => goes_around m sh) ms shs ->
  forall ctx x w,
    nest g ms ctx x w
    = match reach shs ctx x w with
      | Some (stack, xn, wn) =>
          match g ctx xn wn with
          | Some (r, w') => unwind stack ctx r w'
          | None => None
          end
      | None => None
      end.
Proof.
  induction 1 as [|m sh ms shs Hm _ IH]; intros ctx x w; simpl.
  - destruct (g ctx x w) as [[r w']|]; reflexivity.
  - rewrite Hm. unfold bind.
    destruct (Around_before sh ctx x w) as [[a w1]|]; [|reflexivity].
    rewrite IH.
    destruct (reach shs ctx (Around_input sh ctx x a) w1)
      as [[[stack xn] wn]|]; [|reflexivity].
    destruct (g ctx xn wn) as [[r w']|]; [|reflexivity].
    simpl. destruct (unwind stack ctx r w') as [[r' w'']|]; reflexivity.
Qed.

Lemma reach_stack (A : Type) (shs : list (Around Ctx V E W A)) :
  forall ctx x w stack xn wn,
    reach shs ctx x w = Some (stack, xn, wn) ->
    map (fun t => fst (fst t)) stack = shs.
Proof.
  induction shs as [|sh shs IH]; intros ctx x w stack xn wn; simpl.
  - intros [= <- _ _]. reflexivity.
  - destruct (Around_before sh ctx x w) as [[a w1]|]; [|discriminate].
    destruct (reach shs ctx (Around_input sh ctx x a) w1)
      as [[[stack' xn'] wn']|] eqn:Hr; [|discriminate].
    intros [= <- _ _]. simpl. f_equal. exact (IH _ _ _ _ _ _ Hr).
Qed.

Lemma unwind_keeps_error (A : Type)
  (stack : list (Around Ctx V E W A * any V * A)) (ctx : Ctx) :
  Forall (fun sh => keeps_errors sh) (map (fun t => fst (fst t)) stack) ->
  forall out e w,
    exists out' w',
      unwind stack ctx (out, Some e) w = Some ((out', Some e), w').
Proof.
  induction stack as [|[[sh x] a] stack IH]; simpl; intros Hk out e w.
  - eauto.
  - inversion Hk as [|? ? Hsh Hrest]; subst.
    destruct (IH Hrest out e w) as (out1 & w1 & ->).
    apply Hsh.
Qed.

(** The call of [next] and nothing else, as a shape. *)
Lemma delegates_goes_around (m : Middleware) :
  delegates m
  <-> goes_around m
        {| Around_before := fun _ _ => ret tt;
           Around_input := fun _ input (_ : unit) => input;
           Around_after := fun _ _ _ r => ret r |}.
Proof.
  unfold delegates, goes_around, bind, ret. simpl.
  split; intros H ctx input next w; rewrite H;
    destruct (next ctx input w) as [[r w']|]; reflexivity.
Qed.


End Composition.

(* --------------------------------------------------------------------- *)
(** ** The registry *)

Section RegistryFacts.

Variables Ctx V E W : Type.

Local Abbreviation Entry := (Entry Ctx V E W).
Local Abbreviation BuildMiddleware := (BuildMiddleware Ctx V E W).
Local Abbreviation BuildStep := (BuildStep Ctx V E W).
Local Abbreviation Mutation := (Mutation Ctx V E W).

Lemma has_id_true (id : string) (l : list Entry) :
  has_id id l = true <-> In id (identifiers l).
Proof.
  unfold has_id, identifiers. rewrite existsb_exists, in_map_iff.
  split; intros (e & H1 & H2).
  - exists e. apply String.eqb_eq in H2. auto.
  - exists e. rewrite <- String.eqb_eq in H1. auto.
Qed.

Lemma has_id_false (id : string) (l : list Entry) :
  has_id id l = false <-> ~ In id (identifiers l).
Proof.
  rewrite <- has_id_true. destruct (has_id id l); split; congruence.
Qed.

Lemma locate_Some (id : string) (l pre post : list Entry) (a : Entry) :
  locate id l = Some (pre, a, post) ->
  l = pre ++ a :: post /\ Entry_ID a = id /\ ~ In id (identifiers pre).
Proof.
  revert pre. induction l as [|e l IH]; intros pre; simpl.
  - discriminate.
  - destruct (String.eqb (Entry_ID e) id) eqn:He.
    + intros [= <- <- <-]. apply String.eqb_eq in He. simpl. tauto.
    + destruct (locate id l) as [[[pre' a'] post']|]; [|discriminate].
      intros [= <- <- <-].
      destruct (IH pre' eq_refl) as (-> & Ha & Hpre).
      apply String.eqb_neq in He.
      simpl. intuition congruence.
Qed.

Lemma locate_None (id : string) (l : list Entry) :
  locate id l = None -> ~ In id (identifiers l).
Proof.
  induction l as [|e l IH]; simpl; [tauto|].
  destruct (String.eqb (Entry_ID e) id) eqn:He; [discriminate|].
  destruct (locate id l) as [[[pre a] post]|]; [discriminate|].
  apply String.eqb_neq in He. intuition.
Qed.

Lemma locate_middle (pre post : list Entry) (a : Entry) :
  ~ In (Entry_ID a) (identifiers pre) ->
  locate (Entry_ID a) (pre ++ a :: post) = Some (pre, a, post).
Proof.
  induction pre as [|e pre IH]; simpl; intro H.
  - rewrite String.eqb_refl. reflexivity.
  - destruct (String.eqb (Entry_ID e) (Entry_ID a)) eqn:He.
    + apply String.eqb_eq in He. tauto.
    + rewrite IH by tauto. reflexivity.
Qed.

Lemma identifiers_app (l1 l2 : list Entry) :
  identifiers (l1 ++ l2) = identifiers l1 ++ identifiers l2.
Proof. apply map_app. Qed.

Lemma NoDup_insert_middle (id : string) (l1 l2 : list string) :
  NoDup (l1 ++ l2) -> ~ In id (l1 ++ l2) -> NoDup (l1 ++ id :: l2).
Proof.
  intros Hnd Hin.
  apply (Permutation_NoDup (Permutation_middle l1 l2 id)).
  constructor; assumption.
Qed.

Lemma all_BuildMiddleware_app (l1 l2 : list Entry) :
  all_BuildMiddleware (l1 ++ l2)
  <-> all_BuildMiddleware l1 /\ all_BuildMiddleware l2.
Proof. apply Forall_app. Qed.

Lemma all_BuildMiddleware_cons (e : Entry) (l : list Entry) :
  all_BuildMiddleware (e :: l)
  <-> (exists m, e = Entry_BuildMiddleware m) /\ all_BuildMiddleware l.
Proof. apply Forall_cons_iff. Qed.

Lemma all_BuildMiddleware_map (l : list Entry) :
  all_BuildMiddleware l <->
  exists ms : list BuildMiddleware, l = map (@Entry_BuildMiddleware Ctx V E W) ms.
Proof.
  split.
  - induction 1 as [|e l [m ->] _ [ms ->]].
    + exists []. reflexivity.
    + exists (m :: ms). reflexivity.
  - intros [ms ->]. induction ms as [|m ms IH]; constructor; eauto.
Qed.

Ltac registry_step :=
  match goal with
  | H : locate _ _ = Some _ |- _ =>
      apply locate_Some in H; destruct H as (? & ? & ?); subst
  | H : locate _ _ = None |- _ => apply locate_None in H
  | H : has_id _ _ = false |- _ => apply has_id_false in H
  | H : has_id _ _ = true |- _ => apply has_id_true in H
  end.

(** Every mutating call keeps both properties, and does not panic when
    they hold. *)
Lemma call_keeps (c : Mutation) (s : BuildStep) :
  distinct (BuildStep_order s) ->
  all_BuildMiddleware (BuildStep_order s) ->
  distinct (BuildStep_order (fst (call c s)))
  /\ all_BuildMiddleware (BuildStep_order (fst (call c s)))
  /\ snd (call c s) <> Panics.
Proof.
  destruct s as [[l]]. unfold distinct, BuildStep_order. simpl.
  intros Hd Hb.
  destruct c as [m pos|m relativeTo pos|id m|id|]; simpl.
  - unfold BuildStep_Add, orderedIDs_Add. simpl.
    destruct (has_id (BuildMiddleware_ID m) l) eqn:Hh; simpl.
    + repeat split; try assumption; discriminate.
    + registry_step.
      destruct pos; simpl; (split; [|split; [|discriminate]]).
      * unfold identifiers in *. rewrite map_app. simpl.
        apply NoDup_insert_middle; rewrite app_nil_r; assumption.
      * apply all_BuildMiddleware_app. split; [assumption|].
        constructor; eauto.
      * constructor; assumption.
      * constructor; eauto.
  - unfold BuildStep_Insert, orderedIDs_Insert. simpl.
    destruct (has_id (BuildMiddleware_ID m) l) eqn:Hh; simpl.
    + repeat split; try assumption; discriminate.
    + registry_step.
      destruct (locate relativeTo l) as [[[pre a] post]|] eqn:Hl; simpl.
      * registry_step.
        apply all_BuildMiddleware_app in Hb. destruct Hb as [Hb1 Hb2].
        rewrite identifiers_app in *. simpl in *.
        destruct pos; simpl; (split; [|split; [|discriminate]]).
        -- rewrite identifiers_app. simpl.
           change (NoDup (identifiers pre
                          ++ [Entry_ID a]
                          ++ BuildMiddleware_ID m :: identifiers post)).
           rewrite app_assoc.
           apply NoDup_insert_middle; rewrite <- app_assoc; simpl; assumption.
        -- apply all_BuildMiddleware_app. split; [assumption|].
           apply all_BuildMiddleware_cons in Hb2. destruct Hb2.
           repeat (constructor; eauto).
        -- rewrite identifiers_app. simpl.
           apply NoDup_insert_middle; assumption.
        -- apply all_BuildMiddleware_app. split; [assumption|].
           constructor; eauto.
      * repeat split; try assumption; discriminate.
  - unfold BuildStep_Swap, orderedIDs_Swap. simpl.
    destruct (locate id l) as [[[pre a] post]|] eqn:Hl; simpl.
    + registry_step.
      apply all_BuildMiddleware_app in Hb. destruct Hb as [Hb1 Hb2].
      apply all_BuildMiddleware_cons in Hb2. destruct Hb2 as [[b ->] Hb2].
      destruct (has_id (BuildMiddleware_ID m) (pre ++ post)) eqn:Hh; simpl.
      * repeat split; try assumption; try discriminate.
        apply all_BuildMiddleware_app. split; [assumption|].
        constructor; eauto.
      * registry_step.
        rewrite identifiers_app in *. simpl in *.
        split; [|split; [|discriminate]].
        -- apply NoDup_insert_middle; [|assumption].
           apply NoDup_remove_1 in Hd. assumption.
        -- apply all_BuildMiddleware_app. split; [assumption|].
           constructor; eauto.
    + repeat split; try assumption; discriminate.
  - unfold BuildStep_Remove, orderedIDs_Remove. simpl.
    destruct (locate id l) as [[[pre a] post]|] eqn:Hl; simpl.
    + registry_step.
      apply all_BuildMiddleware_app in Hb. destruct Hb as [Hb1 Hb2].
      apply all_BuildMiddleware_cons in Hb2. destruct Hb2 as [_ Hb2].
      rewrite identifiers_app in *. simpl in *.
      split; [|split; [|discriminate]].
      * apply NoDup_remove_1 in Hd. assumption.
      * apply all_BuildMiddleware_app. split; assumption.
    + repeat split; try assumption; discriminate.
  - repeat split; try constructor; discriminate.
Qed.

(** A mutating call that returns an error returns the step it was given. *)
Lemma call_error_unchanged (c : Mutation) (s : BuildStep) (e : RegistryError) :
  snd (call c s) = Returns (Some e) -> fst (call c s) = s.
Proof.
  destruct s as [[l]].
  destruct c as [m pos|m relativeTo pos|id m|id|]; simpl.
  - unfold BuildStep_Add, orderedIDs_Add. simpl.
    destruct (has_id (BuildMiddleware_ID m) l); simpl; [reflexivity|].
    destruct pos; discriminate.
  - unfold BuildStep_Insert, orderedIDs_Insert. simpl.
    destruct (has_id (BuildMiddleware_ID m) l); simpl; [reflexivity|].
    destruct (locate relativeTo l) as [[[pre a] post]|]; simpl;
      [destruct pos; discriminate | reflexivity].
  - unfold BuildStep_Swap, orderedIDs_Swap. simpl.
    destruct (locate id l) as [[[pre a] post]|]; simpl; [|reflexivity].
    destruct (has_id (BuildMiddleware_ID m) (pre ++ post)); simpl;
      [reflexivity|].
    destruct (assert_BuildMiddleware a); discriminate.
  - unfold BuildStep_Remove, orderedIDs_Remove. simpl.
    destruct (locate id l) as [[[pre a] post]|]; simpl;
      [discriminate | reflexivity].
  - discriminate.
Qed.

Lemma calls_keep (cs : list Mutation) :
  forall s : BuildStep,
    distinct (BuildStep_order s) ->
    all_BuildMiddleware (BuildStep_order s) ->
    distinct (BuildStep_order (calls cs s))
    /\ all_BuildMiddleware (BuildStep_order (calls cs s)).
Proof.
  induction cs as [|c cs IH]; intros s Hd Hb; simpl.
  - split; assumption.
  - destruct (@call_keeps c s Hd Hb) as (Hd' & Hb' & _).
    apply IH; assumption.
Qed.

(** An entry found after a call was there before it or was handed in by
    it. *)
Lemma call_entries (c : Mutation) (s : BuildStep) (e : Entry) :
  In e (BuildStep_order (fst (call c s))) ->
  In e (BuildStep_order s)
  \/ In e (map (@Entry_BuildMiddleware Ctx V E W) (given c)).
Proof.
  destruct s as [[l]]. unfold BuildStep_order. simpl.
  destruct c as [m pos|m relativeTo pos|id m|id|]; simpl.
  - unfold BuildStep_Add, orderedIDs_Add. simpl.
    destruct (has_id (BuildMiddleware_ID m) l); simpl; [tauto|].
    destruct pos; simpl; rewrite ?in_app_iff; simpl; intuition.
  - unfold BuildStep_Insert, orderedIDs_Insert. simpl.
    destruct (has_id (BuildMiddleware_ID m) l); simpl; [tauto|].
    destruct (locate relativeTo l) as [[[pre a] post]|] eqn:Hl; simpl;
      [|tauto].
    registry_step.
    destruct pos; simpl; rewrite !in_app_iff; simpl; intuition.
  - unfold BuildStep_Swap, orderedIDs_Swap. simpl.
    destruct (locate id l) as [[[pre a] post]|] eqn:Hl; simpl; [|tauto].
    registry_step.
    destruct (has_id (BuildMiddleware_ID m) (pre ++ post)); simpl; [tauto|].
    destruct (assert_BuildMiddleware a); simpl;
      rewrite !in_app_iff; simpl; intuition.
  - unfold BuildStep_Remove, orderedIDs_Remove. simpl.
    destruct (locate id l) as [[[pre a] post]|] eqn:Hl; simpl; [|tauto].
    registry_step.
    rewrite !in_app_iff; simpl; intuition.
  - tauto.
Qed.

Lemma calls_entries (cs : list Mutation) :
  forall (s : BuildStep) (e : Entry),
    In e (BuildStep_order (calls cs s)) ->
    In e (BuildStep_order s)
    \/ In e (map (@Entry_BuildMiddleware Ctx V E W) (flat_map (@given Ctx V E W) cs)).
Proof.
  induction cs as [|c cs IH]; intros s e; simpl; [tauto|].
  intro H. apply IH in H.
  rewrite map_app, in_app_iff.
  destruct H as [H|H]; [|tauto].
  apply call_entries in H. tauto.
Qed.

Lemma calls_from_new (cs : list Mutation) :
  distinct (BuildStep_order (calls cs NewBuildStep))
  /\ all_BuildMiddleware (BuildStep_order (calls cs NewBuildStep)).
Proof. apply calls_keep; constructor. Qed.

End RegistryFacts.

(* --------------------------------------------------------------------- *)
(** ** The Build step *)

Section BuildStepFacts.

Variables Ctx V E W : Type.

Local Abbreviation Handler := (Handler Ctx V E W).
Local Abbreviation Middleware := (Middleware Ctx V E W).
Local Abbreviation BuildHandler := (BuildHandler Ctx V E W).
Local Abbreviation BuildMiddleware := (BuildMiddleware Ctx V E W).
Local Abbreviation Entry := (Entry Ctx V E W).
Local Abbreviation BuildStep := (BuildStep Ctx V E W).
Local Abbreviation Mutation := (Mutation Ctx V E W).
Local Abbreviation as_entries :=
  (map (@Entry_BuildMiddleware Ctx V E W)).
Local Abbreviation adapter next :=
  (buildWrapHandler_HandleBuild {| buildWrapHandler_Next := next |}).

Lemma nestBuild_app (h : BuildHandler) (l1 l2 : list BuildMiddleware) :
  nestBuild h (l1 ++ l2) = nestBuild (nestBuild h l2) l1.
Proof.
  induction l1 as [|m l1 IH]; simpl; [reflexivity|].
  rewrite IH. reflexivity.
Qed.

Lemma BuildStep_HandleMiddleware_loop_prefix (done rest : list BuildMiddleware) :
  forall h : BuildHandler,
    BuildStep_HandleMiddleware_loop (as_entries (done ++ rest))
      (List.length done) h
    = Some (nestBuild h done).
Proof.
  revert rest.
  induction done as [|m done IH] using rev_ind; intros rest h.
  - reflexivity.
  - rewrite length_app, Nat.add_comm. simpl.
    rewrite <- app_assoc. simpl.
    rewrite map_app. simpl.
    rewrite <- (length_map (@Entry_BuildMiddleware Ctx V E W) done).
    rewrite nth_error_after. simpl.
    rewrite length_map.
    change (as_entries done ++ Entry_BuildMiddleware m :: as_entries rest)
      with (as_entries done ++ as_entries (m :: rest)).
    rewrite <- map_app, IH, nestBuild_app.
    reflexivity.
Qed.

Lemma BuildStep_HandleMiddleware_loop_nest
  (ms : list BuildMiddleware) (h : BuildHandler) :
  BuildStep_HandleMiddleware_loop (as_entries ms)
    (List.length (as_entries ms)) h
  = Some (nestBuild h ms).
Proof.
  rewrite length_map.
  rewrite <- (app_nil_r ms) at 1.
  apply BuildStep_HandleMiddleware_loop_prefix.
Qed.

(** The entries of a step that was made by [NewBuildStep] and has been
    through any calls since are build middleware. *)
Lemma calls_as_entries (cs : list Mutation) :
  exists ms : list BuildMiddleware,
    BuildStep_order (calls cs NewBuildStep) = as_entries ms.
Proof.
  apply all_BuildMiddleware_map. apply calls_from_new.
Qed.

Lemma BuildStep_HandleMiddleware_nest
  (s : BuildStep) (ms : list BuildMiddleware)
  (ctx : Ctx) (in_ : any V) (next : Handler) :
  BuildStep_order s = as_entries ms ->
  BuildStep_HandleMiddleware s ctx in_ next
  = bind (nestBuild (adapter next) ms ctx {| BuildInput_Request := in_ |})
      (fun '(res, err) =>
         match err with
         | Some _ => ret (None, err)
         | None => ret (BuildOutput_Result res, None)
         end).
Proof.
  unfold BuildStep_HandleMiddleware, BuildStep_order. intros ->.
  rewrite BuildStep_HandleMiddleware_loop_nest. reflexivity.
Qed.

(** C3. For a step [s] (one made by [NewBuildStep], after any calls of its
    mutating methods), an input [in_] and a handler [next]:
    (1) the terminal adapter around [next] calls [next] with the [Request]
    field of the [BuildInput] and puts the result into a [BuildOutput];
    (2) the chain is the nesting of the entries of [GetOrder()], the first
    the outermost, around that adapter; (3, 4) it is invoked on
    [BuildInput{Request: in_}]; (5) when it returns a nil error,
    [HandleMiddleware] returns the [Result] field and a nil error, and
    when it returns an error, that error and a nil output (and when it
    panics, so does [HandleMiddleware]). *)
Theorem BuildStep_HandleMiddleware_stages
  (cs : list Mutation) (ctx : Ctx) (in_ : any V) (next : Handler) :
  let s := calls cs NewBuildStep in
  exists ms : list BuildMiddleware,
    orderedIDs_GetOrder (BuildStep_ids s) = as_entries ms
    /\ (forall c bi w,
          adapter next c bi w
          = match next c (BuildInput_Request bi) w with
            | Some ((res, None), w') =>
                Some (({| BuildOutput_Result := res |}, None), w')
            | Some ((_, Some e), w') =>
                Some (({| BuildOutput_Result := None |}, Some e), w')
            | None => None
            end)
    /\ BuildStep_HandleMiddleware s ctx in_ next
       = bind (nestBuild (adapter next) ms ctx {| BuildInput_Request := in_ |})
           (fun '(res, err) =>
              match err with
              | Some _ => ret (None, err)
              | None => ret (BuildOutput_Result res, None)
              end)
    /\ (forall w,
          BuildStep_HandleMiddleware s ctx in_ next w
          = match
              nestBuild (adapter next) ms ctx {| BuildInput_Request := in_ |} w
            with
            | Some ((res, None), w') =>
                Some ((BuildOutput_Result res, None), w')
            | Some ((_, Some e), w') => Some ((None, Some e), w')
            | None => None
            end).
Proof.
  intro s. destruct (calls_as_entries cs) as [ms Hms]. fold s in Hms.
  exists ms. split; [exact Hms|]. split; [|split].
  - intros c bi w. unfold buildWrapHandler_HandleBuild, bind. simpl.
    destruct (next c (BuildInput_Request bi) w) as [[[res [e|]] w']|];
      reflexivity.
  - apply BuildStep_HandleMiddleware_nest. exact Hms.
  - intro w.
    rewrite (BuildStep_HandleMiddleware_nest s ms ctx in_ next Hms).
    unfold bind.
    destruct (nestBuild (adapter next) ms ctx _ w) as [[[res [e|]] w']|];
      reflexivity.
Qed.


(** C5. After any sequence of calls of [Add], [Insert], [Swap], [Remove]
    and [Clear] on a new step, and after one more call [c], the identifiers
    in the registry are pairwise distinct; and when [c] returns an error,
    the step is the one [c] was called on. *)
Theorem registry_distinct_and_atomic (cs : list Mutation) (c : Mutation) :
  let s := calls cs NewBuildStep in
  NoDup (BuildStep_identifiers s)
  /\ NoDup (BuildStep_identifiers (fst (call c s)))
  /\ (forall e : RegistryError,
        snd (call c s) = Returns (Some e) -> fst (call c s) = s).
Proof.
  intro s.
  destruct (calls_from_new cs) as [Hd Hb]. fold s in Hd, Hb.
  split; [exact Hd|]. split.
  - apply (call_keeps c s Hd Hb).
  - intro e. apply call_error_unchanged.
Qed.

(** C6. On any step, [Add(m, Before)] then [Add(m2, Before)], for two
    identifiers that differ and are not in the registry, both succeed and
    put [m2] first and [m] second, before what was there.  On a step with
    distinct identifiers whose entry [anchor] stands between [pre] and
    [post], [Insert(m2, id, After)] then [Insert(m3, id, After)], [id]
    being [anchor]'s identifier and [m2], [m3] having two identifiers that
    differ and are not in the registry, both succeed and leave
    [pre ++ anchor :: m3 :: m2 :: post]. *)
Theorem relative_position_tie_break
  (s : BuildStep) (m m2 m3 : BuildMiddleware)
  (anchor : Entry) (pre post : list Entry) :
  (~ In (BuildMiddleware_ID m) (BuildStep_identifiers s) ->
   ~ In (BuildMiddleware_ID m2) (BuildStep_identifiers s) ->
   BuildMiddleware_ID m <> BuildMiddleware_ID m2 ->
   let r1 := BuildStep_Add m Before s in
   let r2 := BuildStep_Add m2 Before (fst r1) in
   snd r1 = None /\ snd r2 = None
   /\ BuildStep_order (fst r2)
      = Entry_BuildMiddleware m2 :: Entry_BuildMiddleware m :: BuildStep_order s)
  /\ (BuildStep_order s = pre ++ anchor :: post ->
      NoDup (BuildStep_identifiers s) ->
      ~ In (BuildMiddleware_ID m2) (BuildStep_identifiers s) ->
      ~ In (BuildMiddleware_ID m3) (BuildStep_identifiers s) ->
      BuildMiddleware_ID m2 <> BuildMiddleware_ID m3 ->
      let r1 := BuildStep_Insert m2 (Entry_ID anchor) After s in
      let r2 := BuildStep_Insert m3 (Entry_ID anchor) After (fst r1) in
      snd r1 = None /\ snd r2 = None
      /\ BuildStep_order (fst r2)
         = pre ++ anchor :: Entry_BuildMiddleware m3
                         :: Entry_BuildMiddleware m2 :: post).
Proof.
  destruct s as [[l]].
  unfold BuildStep_identifiers, BuildStep_order. simpl.
  split.
  - intros H1 H2 Hne.
    apply has_id_false in H1.
    unfold BuildStep_Add, orderedIDs_Add.
    cbn [BuildStep_ids orderedIDs_entries Entry_ID fst snd].
    rewrite H1.
    cbn [BuildStep_ids orderedIDs_entries Entry_ID fst snd].
    assert (H2' : has_id (BuildMiddleware_ID m2) (Entry_BuildMiddleware m :: l)
                  = false).
    { apply has_id_false. simpl. intuition. }
    rewrite H2'. simpl. auto.
  - intros -> Hnd H2 H3 Hne.
    assert (Hpre : ~ In (Entry_ID anchor) (identifiers pre)).
    { rewrite identifiers_app in Hnd. simpl in Hnd.
      apply NoDup_remove_2 in Hnd. rewrite in_app_iff in Hnd. tauto. }
    apply has_id_false in H2.
    unfold BuildStep_Insert, orderedIDs_Insert.
    cbn [BuildStep_ids orderedIDs_entries Entry_ID fst snd].
    rewrite H2, (locate_middle pre post anchor Hpre).
    cbn [BuildStep_ids orderedIDs_entries Entry_ID fst snd].
    assert (H3' : has_id (BuildMiddleware_ID m3)
                    (pre ++ anchor :: Entry_BuildMiddleware m2 :: post)
                  = false).
    { apply has_id_false.
      rewrite identifiers_app in *. simpl in *.
      rewrite in_app_iff in *. simpl in *. intuition. }
    rewrite H3', (locate_middle pre _ anchor Hpre). simpl. auto.
Qed.

(** C7. [BuildMiddlewareFunc(id, fn)] is a middleware whose [ID()] is [id]
    and whose [HandleBuild(ctx, in, next)] is [fn(ctx, in, next)]: the same
    result and the same effects. *)
Theorem BuildMiddlewareFunc_adapter
  (id : string)
  (fn : Ctx -> BuildInput V -> BuildHandler -> M W (BuildOutput V * error E))
  (ctx : Ctx) (in_ : BuildInput V) (next : BuildHandler) :
  BuildMiddleware_ID (BuildMiddlewareFunc id fn) = id
  /\ BuildMiddleware_HandleBuild (BuildMiddlewareFunc id fn) ctx in_ next
     = fn ctx in_ next.
Proof. split; reflexivity. Qed.

(** C8. [Clear()] returns on every step and has no error to return; after
    it, and after a second [Clear()], [GetOrder()] is empty. *)
Theorem Clear_twice (s : BuildStep) :
  snd (call Call_Clear s) = Returns None
  /\ orderedIDs_GetOrder (BuildStep_ids (BuildStep_Clear s)) = []
  /\ snd (call Call_Clear (BuildStep_Clear s)) = Returns None
  /\ orderedIDs_GetOrder (BuildStep_ids (BuildStep_Clear (BuildStep_Clear s)))
     = [].
Proof. repeat split. Qed.

(** C9. After any sequence of calls on a new step, every entry of the
    registry is a [BuildMiddleware], one that a call of [Add], [Insert] or
    [Swap] in the sequence was given as its parameter; so
    [order[i].(BuildMiddleware)] succeeds on every entry, the
    loop of [HandleMiddleware] ends with a handler, and [Swap], like every
    other call, does not panic. *)
Theorem BuildStep_assertions_hold
  (cs : list Mutation) (next : Handler) (id : string) (m : BuildMiddleware)
  (c : Mutation) :
  let s := calls cs NewBuildStep in
  let order := orderedIDs_GetOrder (BuildStep_ids s) in
  Forall (fun e => exists b, In b (flat_map (@given Ctx V E W) cs)
                             /\ e = Entry_BuildMiddleware b) order
  /\ Forall (fun e => exists b, assert_BuildMiddleware e = Returns b) order
  /\ (exists h : BuildHandler,
        BuildStep_HandleMiddleware_loop order (List.length order) (adapter next)
        = Some h)
  /\ (exists r, snd (BuildStep_Swap id m s) = Returns r)
  /\ (exists r, snd (call c s) = Returns r).
Proof.
  intros s order.
  destruct (calls_from_new cs) as [Hd Hb]. fold s in Hd, Hb.
  split; [|split; [|split; [|split]]].
  - apply Forall_forall. intros e He.
    apply calls_entries in He. destruct He as [[]|He].
    apply in_map_iff in He. destruct He as (b & <- & Hin).
    exists b. auto.
  - unfold all_BuildMiddleware in Hb.
    apply (Forall_impl _ (P := fun e => exists b, e = Entry_BuildMiddleware b));
      [|exact Hb].
    intros e [b ->]. exists b. reflexivity.
  - destruct (calls_as_entries cs) as [ms Hms]. fold s in Hms.
    exists (nestBuild (adapter next) ms).
    unfold order. change (orderedIDs_GetOrder (BuildStep_ids s))
      with (BuildStep_order s).
    rewrite Hms. apply BuildStep_HandleMiddleware_loop_nest.
  - pose proof (call_keeps (Call_Swap id m) s Hd Hb) as (_ & _ & Hp).
    simpl in Hp.
    destruct (BuildStep_Swap id m s) as [s' [[removed err]|]]; simpl in *;
      [eauto | congruence].
  - pose proof (call_keeps c s Hd Hb) as (_ & _ & Hp).
    destruct (snd (call c s)) as [r|]; [eauto | congruence].
Qed.

End BuildStepFacts.

(* --------------------------------------------------------------------- *)
(** ** Laws of composition *)

Section CompositionLaws.

Variables Ctx V E W : Type.

Local Abbreviation Handler := (Handler Ctx V E W).
Local Abbreviation Middleware := (Middleware Ctx V E W).

Lemma map_result_map_result (A B C : Type) (f : A -> B) (g : B -> C)
  (r : option (A * W)) :
  map_result g (map_result f r) = map_result (fun a => g (f a)) r.
Proof. destruct r as [[a w]|]; reflexivity. Qed.

Lemma map_result_ext (A B : Type) (f g : A -> B) (r : option (A * W)) :
  (forall a, f a = g a) -> map_result f r = map_result g r.
Proof. intro H. destruct r as [[a w]|]; simpl; [rewrite H|]; reflexivity. Qed.

Lemma nest_wrappers (h : Handler) (ms : list Middleware)
  (fgs : list ((any V -> any V) * (any V * error E -> any V * error E))) :
  Forall2 (fun m fg => wraps_with m (fst fg) (snd fg)) ms fgs ->
  forall ctx x w,
    nest h ms ctx x w
    = map_result (results_back (map snd fgs))
        (h ctx (inputs_through (map fst fgs) x) w).
Proof.
  induction 1 as [|m [f g] ms fgs Hm _ IH]; intros ctx x w; simpl.
  - destruct (h ctx x w) as [[r w']|]; reflexivity.
  - rewrite Hm. simpl. rewrite IH, map_result_map_result. reflexivity.
Qed.

(** X1. Decorating in two rounds is decorating once with the two lists
    appended: the handler that [DecorateHandler h ms2] returns, decorated
    with [ms1], is the handler that [DecorateHandler h (ms1 ++ ms2)]
    returns. *)
Theorem DecorateHandler_app (h : Handler) (ms1 ms2 : list Middleware) :
  exists inner : Handler,
    DecorateHandler h ms2 = Some inner
    /\ DecorateHandler inner ms1 = DecorateHandler h (ms1 ++ ms2).
Proof.
  exists (nest h ms2).
  rewrite !DecorateHandler_nest, nest_app.
  split; reflexivity.
Qed.

(** X2. As a middleware, the empty collection is the call of [next] (of
    the function itself, for a [HandlerFunc]), and the collection
    [ms1 ++ ms2] is [ms1] handed, as its [next], [ms2] around [next]. *)
Theorem Middlewares_HandleMiddleware_app
  (ms1 ms2 : Middlewares Ctx V E W) (ctx : Ctx) (input : any V)
  (next : Handler) (fn : HandlerFunc Ctx V E W) :
  Middlewares_HandleMiddleware [] ctx input next = next ctx input
  /\ Middlewares_HandleMiddleware [] ctx input (HandlerFunc_Handle fn)
     = fn ctx input
  /\ Middlewares_HandleMiddleware (ms1 ++ ms2) ctx input next
     = Middlewares_HandleMiddleware ms1 ctx input
         (fun c i => Middlewares_HandleMiddleware ms2 c i next).
Proof.
  split; [reflexivity|]. split; [reflexivity|].
  unfold Middlewares_HandleMiddleware.
  rewrite !DecorateHandler_nest, nest_app.
  reflexivity.
Qed.

(** X3. A middleware that only delegates changes nothing, wherever it
    stands in the list: with it or without it, [DecorateHandler] returns
    the same handler. *)
Theorem delegating_middleware_is_transparent
  (h : Handler) (pre post : list Middleware) (m : Middleware) :
  delegates m ->
  DecorateHandler h (pre ++ m :: post) = DecorateHandler h (pre ++ post).
Proof.
  intro Hm.
  rewrite !DecorateHandler_nest, !nest_app.
  do 2 f_equal.
  extensionality c. extensionality i. extensionality w.
  simpl. apply Hm.
Qed.

(** X4. Nothing that comes after a middleware that returns without
    calling [next] matters: the later middleware and the terminal handler
    may be replaced by any others, [DecorateHandler] returns the same
    handler. *)
Theorem short_circuit_cuts_the_chain
  (h h' : Handler) (pre post post' : list Middleware) (m : Middleware) :
  short_circuits m ->
  DecorateHandler h (pre ++ m :: post) = DecorateHandler h' (pre ++ m :: post').
Proof.
  intros [body Hm].
  rewrite !DecorateHandler_nest, !nest_app.
  do 2 f_equal.
  extensionality c. extensionality i. extensionality w.
  simpl. rewrite !Hm. reflexivity.
Qed.

(** X5. [DecorateHandler] does not look at identifiers: two lists whose
    middleware have the same [HandleMiddleware], one by one, give the same
    handler, whatever their [ID]s, repeated ones included. *)
Theorem DecorateHandler_ignores_IDs (h : Handler) (ms ms' : list Middleware) :
  map (@Middleware_HandleMiddleware Ctx V E W) ms
  = map (@Middleware_HandleMiddleware Ctx V E W) ms' ->
  DecorateHandler h ms = DecorateHandler h ms'.
Proof.
  intro H. rewrite !DecorateHandler_nest. f_equal.
  revert ms' H.
  induction ms as [|m ms IH]; intros [|m' ms'] H; simpl in *;
    try discriminate; [reflexivity|].
  injection H as Hm Hms.
  rewrite Hm, (IH ms' Hms). reflexivity.
Qed.

(** X6. When each middleware of the list calls [next] once, on its input
    changed by its [f], and returns what [next] returned changed by its
    [g], the composed handler calls the terminal handler once, on the
    input changed by the [f]s from the first to the last, and returns its
    result changed by the [g]s from the last to the first. *)
Theorem chain_of_wrappers
  (h : Handler) (ms : list Middleware)
  (fgs : list ((any V -> any V) * (any V * error E -> any V * error E)))
  (ctx : Ctx) (x : any V) (w : W) :
  Forall2 (fun m fg => wraps_with m (fst fg) (snd fg)) ms fgs ->
  exists composed : Handler,
    DecorateHandler h ms = Some composed
    /\ composed ctx x w
       = map_result (results_back (map snd fgs))
           (h ctx (inputs_through (map fst fgs) x) w).
Proof.
  intro H. exists (nest h ms).
  split; [apply DecorateHandler_nest|].
  apply nest_wrappers. exact H.
Qed.

Lemma nest_brackets (h : Handler) (ms : list Middleware)
  (bas : list ((Ctx -> any V -> M W unit)
               * (Ctx -> any V * error E -> M W unit))) :
  Forall2 (fun m ba => brackets m (fst ba) (snd ba)) ms bas ->
  forall ctx x w,
    nest h ms ctx x w
    = bind (run_before (map fst bas) ctx x) (fun _ =>
      bind (h ctx x) (fun r =>
      bind (run_after (map snd bas) ctx r) (fun _ => ret r))) w.
Proof.
  induction 1 as [|m [b a] ms bas Hm _ IH]; intros ctx x w; simpl.
  - unfold bind, ret. destruct (h ctx x w) as [[r w']|]; reflexivity.
  - rewrite Hm. cbn [fst snd]. unfold bind.
    destruct (b ctx x w) as [[[] w1]|]; [|reflexivity].
    rewrite IH. unfold bind, ret.
    destruct (run_before (map fst bas) ctx x w1) as [[[] w2]|]; [|reflexivity].
    destruct (h ctx x w2) as [[r w3]|]; [|reflexivity].
    destruct (run_after (map snd bas) ctx r w3) as [[[] w4]|]; [|reflexivity].
    destruct (a ctx r w4) as [[[] w5]|]; reflexivity.
Qed.

(** X12. When each middleware of the list runs something of its own
    before it calls [next], once and on its own input, and something
    after, and returns what [next] returned, the composed handler runs the
    [before]s in list order, then the terminal handler, then the [after]s
    in the reverse order, and returns what the terminal handler returned;
    a panic anywhere ends the run. *)
Theorem chain_of_brackets
  (h : Handler) (ms : list Middleware)
  (bas : list ((Ctx -> any V -> M W unit)
               * (Ctx -> any V * error E -> M W unit)))
  (ctx : Ctx) (x : any V) (w : W) :
  Forall2 (fun m ba => brackets m (fst ba) (snd ba)) ms bas ->
  exists composed : Handler,
    DecorateHandler h ms = Some composed
    /\ composed ctx x w
       = bind (run_before (map fst bas) ctx x) (fun _ =>
         bind (h ctx x) (fun r =>
         bind (run_after (map snd bas) ctx r) (fun _ => ret r))) w.
Proof.
  intro H. exists (nest h ms).
  split; [apply DecorateHandler_nest|].
  apply nest_brackets. exact H.
Qed.

End CompositionLaws.

(* --------------------------------------------------------------------- *)
(** ** Laws of the Build step *)

Section BuildStepLaws.

Variables Ctx V E W : Type.

Local Abbreviation Handler := (Handler Ctx V E W).
Local Abbreviation BuildHandler := (BuildHandler Ctx V E W).
Local Abbreviation BuildMiddleware := (BuildMiddleware Ctx V E W).
Local Abbreviation BuildStep := (BuildStep Ctx V E W).
Local Abbreviation as_entries :=
  (map (@Entry_BuildMiddleware Ctx V E W)).
Local Abbreviation adapter next :=
  (buildWrapHandler_HandleBuild {| buildWrapHandler_Next := next |}).

Lemma adapter_map_result (next : Handler) (ctx : Ctx) (bi : BuildInput V) (w : W) :
  adapter next ctx bi w
  = map_result to_BuildOutput (next ctx (BuildInput_Request bi) w).
Proof.
  unfold buildWrapHandler_HandleBuild, bind. simpl.
  destruct (next ctx (BuildInput_Request bi) w) as [[[res [e|]] w']|];
    reflexivity.
Qed.

Lemma BuildStep_HandleMiddleware_map_result
  (s : BuildStep) (ms : list BuildMiddleware)
  (ctx : Ctx) (in_ : any V) (next : Handler) (w : W) :
  BuildStep_order s = as_entries ms ->
  BuildStep_HandleMiddleware s ctx in_ next w
  = map_result of_BuildOutput
      (nestBuild (adapter next) ms ctx {| BuildInput_Request := in_ |} w).
Proof.
  intro Hms.
  rewrite (BuildStep_HandleMiddleware_nest s ms ctx in_ next Hms).
  unfold bind.
  destruct (nestBuild (adapter next) ms ctx _ w) as [[[res [e|]] w']|];
    reflexivity.
Qed.

Lemma nestBuild_wrappers (h : BuildHandler) (ms : list BuildMiddleware)
  (fgs : list ((any V -> any V)
               * (BuildOutput V * error E -> BuildOutput V * error E))) :
  Forall2 (fun m fg => build_wraps_with m (fst fg) (snd fg)) ms fgs ->
  forall ctx bi w,
    nestBuild h ms ctx bi w
    = map_result (build_results_back (map snd fgs))
        (h ctx
           {| BuildInput_Request :=
                inputs_through (map fst fgs) (BuildInput_Request bi) |}
           w).
Proof.
  induction 1 as [|m [f g] ms fgs Hm _ IH]; intros ctx bi w; simpl.
  - destruct bi as [x]. simpl.
    destruct (h ctx _ w) as [[r w']|]; reflexivity.
  - rewrite Hm. simpl. rewrite IH, map_result_map_result. reflexivity.
Qed.

(** X7. [BuildStep.HandleMiddleware] never returns an output together
    with an error, whatever the step holds and whatever its middleware
    and [next] return; and the terminal adapter never returns anything but
    the empty [BuildOutput] together with an error. *)
Theorem BuildStep_HandleMiddleware_error_without_output
  (s : BuildStep) (ctx : Ctx) (in_ : any V) (next : Handler)
  (bi : BuildInput V) (w : W) :
  match BuildStep_HandleMiddleware s ctx in_ next w with
  | Some ((Some _, Some _), _) => False
  | _ => True
  end
  /\ match adapter next ctx bi w with
     | Some ((out, Some _), _) => out = {| BuildOutput_Result := None |}
     | _ => True
     end.
Proof.
  split.
  - unfold BuildStep_HandleMiddleware.
    destruct (BuildStep_HandleMiddleware_loop _ _ _) as [h|]; [|exact I].
    unfold bind.
    destruct (h ctx _ w) as [[[res [e|]] w']|]; simpl; try exact I.
    destruct (BuildOutput_Result res); exact I.
  - rewrite adapter_map_result.
    destruct (next ctx (BuildInput_Request bi) w) as [[[res [e|]] w']|];
      simpl; trivial.
Qed.

(** X8. A new step, and likewise a step after [Clear()], hands its input
    to [next] as it is and returns what [next] returns, but for one
    thing: an output that [next] returns together with an error is
    dropped. *)
Theorem empty_BuildStep_HandleMiddleware
  (s : BuildStep) (ctx : Ctx) (in_ : any V) (next : Handler) (w : W) :
  let through (r : option ((any V * error E) * W)) :=
    match r with
    | Some ((res, None), w') => Some ((res, None), w')
    | Some ((_, Some e), w') => Some ((None, Some e), w')
    | None => None
    end in
  BuildStep_HandleMiddleware NewBuildStep ctx in_ next w
  = through (next ctx in_ w)
  /\ BuildStep_HandleMiddleware (BuildStep_Clear s) ctx in_ next w
     = through (next ctx in_ w).
Proof.
  intro through.
  assert (H : forall s0 : BuildStep,
            BuildStep_order s0 = as_entries [] ->
            BuildStep_HandleMiddleware s0 ctx in_ next w
            = through (next ctx in_ w)).
  { intros s0 H0.
    rewrite (BuildStep_HandleMiddleware_map_result s0 [] ctx in_ next w H0).
    simpl. rewrite adapter_map_result. simpl.
    destruct (next ctx in_ w) as [[[res [e|]] w']|]; reflexivity. }
  split; apply H; reflexivity.
Qed.

(** X9. When the entries of a step are the build middleware [ms] and each
    of them calls [next] once, on the request changed by its [f], and
    returns what [next] returned changed by its [g], [HandleMiddleware]
    calls [next] once, on the input changed by the [f]s from the first
    entry to the last, and returns the result of [next], put into a
    [BuildOutput], changed by the [g]s from the last entry to the first,
    and taken out again. *)
Theorem BuildStep_of_wrappers
  (s : BuildStep) (ms : list BuildMiddleware)
  (fgs : list ((any V -> any V)
               * (BuildOutput V * error E -> BuildOutput V * error E)))
  (ctx : Ctx) (in_ : any V) (next : Handler) (w : W) :
  orderedIDs_GetOrder (BuildStep_ids s) = as_entries ms ->
  Forall2 (fun m fg => build_wraps_with m (fst fg) (snd fg)) ms fgs ->
  BuildStep_HandleMiddleware s ctx in_ next w
  = map_result
      (fun r =>
         of_BuildOutput (build_results_back (map snd fgs) (to_BuildOutput r)))
      (next ctx (inputs_through (map fst fgs) in_) w).
Proof.
  intros Hms Hw.
  rewrite (BuildStep_HandleMiddleware_map_result s ms ctx in_ next w Hms).
  rewrite (nestBuild_wrappers (adapter next) Hw).
  rewrite adapter_map_result. simpl.
  rewrite !map_result_map_result. reflexivity.
Qed.

(** X10. When an entry of a step returns without calling [next], the
    entries after it and [next] are of no account: [HandleMiddleware]
    comes to the same on a step with the same entries up to that one and
    any others after it, with any other [next]. *)
Theorem BuildStep_short_circuit
  (s s' : BuildStep) (pre post post' : list BuildMiddleware)
  (m : BuildMiddleware)
  (ctx : Ctx) (in_ : any V) (next next' : Handler) (w : W) :
  orderedIDs_GetOrder (BuildStep_ids s) = as_entries (pre ++ m :: post) ->
  orderedIDs_GetOrder (BuildStep_ids s') = as_entries (pre ++ m :: post') ->
  build_short_circuits m ->
  BuildStep_HandleMiddleware s ctx in_ next w
  = BuildStep_HandleMiddleware s' ctx in_ next' w.
Proof.
  intros Hs Hs' [body Hm].
  rewrite (BuildStep_HandleMiddleware_map_result s _ ctx in_ next w Hs).
  rewrite (BuildStep_HandleMiddleware_map_result s' _ ctx in_ next' w Hs').
  rewrite !nestBuild_app.
  replace (nestBuild (adapter next) (m :: post))
    with (nestBuild (adapter next') (m :: post')); [reflexivity|].
  extensionality c. extensionality bi. extensionality w0.
  simpl. rewrite !Hm. reflexivity.
Qed.

(** X11. Whatever the registry's [Swap] answers, an entry or none, an
    error or none, [BuildStep.Swap] returns (when it does not panic) either
    a middleware and a nil error or a nil middleware and an error, never
    both and never neither; the method above is this one around the
    registry at hand. *)
Theorem BuildStep_Swap_result
  (swap : string -> Entry Ctx V E W -> orderedIDs Ctx V E W
          -> orderedIDs Ctx V E W
             * (option (Entry Ctx V E W) * option RegistryError))
  (id : string) (m : BuildMiddleware) (s : BuildStep) :
  BuildStep_Swap id m s
  = BuildStep_Swap_with (@orderedIDs_Swap Ctx V E W) id m s
  /\ match snd (BuildStep_Swap_with swap id m s) with
     | Returns (Some _, None) => True
     | Returns (None, Some _) => True
     | Returns (Some _, Some _) => False
     | Returns (None, None) => False
     | Panics => True
     end.
Proof.
  split; [reflexivity|].
  unfold BuildStep_Swap_with.
  destruct (swap id (Entry_BuildMiddleware m) (BuildStep_ids s))
    as [g [[removed|] [err|]]]; simpl; trivial.
  destruct (assert_BuildMiddleware removed); simpl; trivial.
Qed.

End BuildStepLaws.

(* --------------------------------------------------------------------- *)
(** ** The properties at the sample chains *)

Module SampleFacts.

Import Sample.




(** [registry_distinct_and_atomic] at a second [Add] of the identifier
    ["a"]: the call returns [DuplicateID] and the step is unchanged. *)
Lemma registry_distinct_and_atomic_witness :
  let s : SBuildStep := calls [Call_Add (build_traced "a") After] NewBuildStep in
  snd (call (Call_Add (build_traced "a") Before) s)
  = Returns (Some (DuplicateID "a"))
  /\ fst (call (Call_Add (build_traced "a") Before) s) = s.
Proof.
  intro s. split; [reflexivity|].
  destruct (registry_distinct_and_atomic
              [Call_Add (build_traced "a") After]
              (Call_Add (build_traced "a") Before))
    as (_ & _ & H).
  apply (H (DuplicateID "a")). reflexivity.
Defined.

(** [relative_position_tie_break] on the step that holds ["m"] alone. *)
Lemma relative_position_tie_break_witness :
  let s : SBuildStep := calls [Call_Add (build_traced "m") After] NewBuildStep in
  BuildStep_order
    (fst (BuildStep_Add (build_traced "m2") Before
            (fst (BuildStep_Add (build_traced "x") Before s))))
  = map (@Entry_BuildMiddleware _ _ _ _)
      [build_traced "m2"; build_traced "x"; build_traced "m"]
  /\ BuildStep_order
       (fst (BuildStep_Insert (build_traced "m3") "m" After
               (fst (BuildStep_Insert (build_traced "m2") "m" After s))))
     = map (@Entry_BuildMiddleware _ _ _ _)
         [build_traced "m"; build_traced "m3"; build_traced "m2"].
Proof.
  intro s.
  destruct (relative_position_tie_break s
              (build_traced "x") (build_traced "m2") (build_traced "m3")
              (Entry_BuildMiddleware (build_traced "m")) [] [])
    as [HAdd HInsert].
  split.
  - apply HAdd.
    + simpl. intros [H|[]]. discriminate H.
    + simpl. intros [H|[]]. discriminate H.
    + discriminate.
  - apply HInsert.
    + reflexivity.
    + simpl. constructor; [intros [] | constructor].
    + simpl. intros [H|[]]. discriminate H.
    + simpl. intros [H|[]]. discriminate H.
    + discriminate.
Defined.

End SampleFacts.

(* --------------------------------------------------------------------- *)
(** ** The laws at the sample chains *)

Module SampleLaws.

Import Sample.

(** [pass "P"] between two traced middleware. *)
Lemma delegating_middleware_is_transparent_witness :
  DecorateHandler terminal [traced "A"; pass "P"; traced "B"]
  = DecorateHandler terminal [traced "A"; traced "B"].
Proof.
  apply (delegating_middleware_is_transparent
           terminal [traced "A"] [traced "B"] (m := pass "P")).
  intros ctx input next w. reflexivity.
Defined.

(** An answering middleware before a traced one and [terminal], and before
    [panicking] alone. *)
Lemma short_circuit_cuts_the_chain_witness :
  DecorateHandler terminal
    [traced "A"; answering "B" (Some "r", None); traced "C"]
  = DecorateHandler panicking [traced "A"; answering "B" (Some "r", None)].
Proof.
  apply (short_circuit_cuts_the_chain
           terminal panicking [traced "A"] [traced "C"] []
           (m := answering "B" (Some "r", None))).
  exists (fun (_ : unit) input =>
            bind (say ("B " ++ show input)) (fun _ => ret (Some "r", None))).
  intros ctx input next w. reflexivity.
Defined.

(** The same middleware under one identifier twice and under two. *)
Lemma DecorateHandler_ignores_IDs_witness :
  DecorateHandler terminal [pass "a"; pass "a"]
  = DecorateHandler terminal [pass "x"; pass "y"].
Proof.
  apply DecorateHandler_ignores_IDs. reflexivity.
Defined.

(** Two marking middleware: the input is marked by [a] then [b], the
    output by [b] then [a], and [terminal] runs once. *)
Lemma chain_of_wrappers_witness :
  exists composed : SHandler,
    DecorateHandler terminal [marking "a"; marking "b"] = Some composed
    /\ composed tt (Some "x") []
       = Some ((Some "x>a>b<b<a", None), ["T x>a>b"]).
Proof.
  destruct (chain_of_wrappers terminal
              (ms := [marking "a"; marking "b"])
              (fgs := [(mark ">a", mark_output "<a");
                       (mark ">b", mark_output "<b")])
              tt (Some "x") [])
    as (composed & Hc & Hrun).
  - repeat constructor.
  - exists composed. split; [exact Hc|]. rewrite Hrun. reflexivity.
Defined.

(** Two traced middleware, which say a line before and a line after. *)
Lemma chain_of_brackets_witness :
  exists composed : SHandler,
    DecorateHandler terminal [traced "A"; traced "B"] = Some composed
    /\ composed tt (Some "x") []
       = Some ((Some "x", None), ["A x"; "B x"; "T x"; "B done"; "A done"]).
Proof.
  destruct (chain_of_brackets terminal
              (ms := [traced "A"; traced "B"])
              (bas := [(fun _ input => say ("A " ++ show input),
                        fun _ _ => say "A done");
                       (fun _ input => say ("B " ++ show input),
                        fun _ _ => say "B done")])
              tt (Some "x") [])
    as (composed & Hc & Hrun).
  - repeat constructor.
  - exists composed. split; [exact Hc|]. rewrite Hrun. reflexivity.
Defined.

(** A step of two marking build middleware. *)
Lemma BuildStep_of_wrappers_witness :
  BuildStep_HandleMiddleware
    (calls [Call_Add (build_marking "a") After;
            Call_Add (build_marking "b") After] NewBuildStep)
    tt (Some "x") terminal []
  = Some ((Some "x>a>b<b<a", None), ["T x>a>b"]).
Proof.
  rewrite (BuildStep_of_wrappers
             (calls [Call_Add (build_marking "a") After;
                     Call_Add (build_marking "b") After] NewBuildStep)
             (ms := [build_marking "a"; build_marking "b"])
             (fgs := [(mark ">a", mark_build_output "<a");
                      (mark ">b", mark_build_output "<b")])
             tt (Some "x") terminal []).
  - reflexivity.
  - reflexivity.
  - repeat constructor.
Defined.

(** A failing build middleware between two traced ones, and last before a
    panicking [next]. *)
Lemma BuildStep_short_circuit_witness :
  BuildStep_HandleMiddleware
    (calls [Call_Add (build_traced "a") After;
            Call_Add (build_failing "f") After;
            Call_Add (build_traced "b") After] NewBuildStep)
    tt (Some "x") terminal []
  = BuildStep_HandleMiddleware
      (calls [Call_Add (build_traced "a") After;
              Call_Add (build_failing "f") After] NewBuildStep)
      tt (Some "x") panicking [].
Proof.
  apply (BuildStep_short_circuit
           _ _ [build_traced "a"] [build_traced "b"] []
           (m := build_failing "f")).
  - reflexivity.
  - reflexivity.
  - exists (fun _ _ =>
              ret ({| BuildOutput_Result := Some "partial" |}, Some "rejected")).
    intros ctx in_ next w. reflexivity.
Defined.

End SampleLaws.
